(** * error-analyzer.py: a log line frequency table

    Shallow embedding of [skills/error-handling-patterns/scripts/error-analyzer.py]

    <<
    def main() -> int:
        lines = [line.rstrip("\n") for line in sys.stdin if line.strip()]
        counts = Counter(lines)
        for line, n in counts.most_common():
            print(f"{n}\t{line}")
        return 0

    if __name__ == "__main__":
        raise SystemExit(main())
    >>

    A Python [str] is a sequence of Unicode code points: [list N].  A Python
    [int] that counts occurrences is a [nat]; the return value of [main] is
    a [Z].  [dict] (and so [Counter]) keeps its keys in insertion order, so
    it is an association list.  Standard input and output are text streams
    opened with [newline="\n"], as CPython opens them on POSIX: no newline
    translation takes place and a line ends at U+000A only. *)

From Stdlib Require Import List NArith ZArith Arith Bool Lia.
From Stdlib Require Import Sorting.Sorted Sorting.Permutation.
From Stdlib Require Decimal DecimalNat Ascii String.
Import String.StringSyntax.
Import ListNotations.

Set Implicit Arguments.

(** ** Python strings *)

Definition char := N.
Definition str := list char.

Definition NL : char := 10%N.   (* "\n" *)
Definition TAB : char := 9%N.   (* "\t" *)

Definition str_eq_dec : forall a b : str, {a = b} + {a <> b} :=
  list_eq_dec N.eq_dec.

(** Literals: the code points of an ASCII literal. *)
Fixpoint py (s : String.string) : str :=
  match s with
  | String.EmptyString => []
  | String.String a s' => Ascii.N_of_ascii a :: py s'
  end.

(** Truth value of a string: [bool(s)] is [len(s) != 0]. *)
Definition bool_of_str (s : str) : bool :=
  match s with
  | [] => false
  | _ :: _ => true
  end.

Definition mem (chars : str) (c : char) : bool :=
  existsb (N.eqb c) chars.

(** The code points CPython's [_PyUnicode_IsWhitespace] accepts
    (bidirectional class WS, B or S, or category Zs). *)
Definition whitespace : str :=
  [ 0x09; 0x0A; 0x0B; 0x0C; 0x0D; 0x1C; 0x1D; 0x1E; 0x1F; 0x20;
    0x85; 0xA0; 0x1680;
    0x2000; 0x2001; 0x2002; 0x2003; 0x2004; 0x2005;
    0x2006; 0x2007; 0x2008; 0x2009; 0x200A;
    0x2028; 0x2029; 0x202F; 0x205F; 0x3000 ]%N.

(** [str.isspace] on one code point. *)
Definition isspace (c : char) : bool := mem whitespace c.

Section Strip.

(** The characters to remove, as a predicate: membership in the argument
    of [rstrip(chars)], or [isspace] when no argument is given. *)
Variable drop : char -> bool.

Fixpoint lstrip_by (s : str) : str :=
  match s with
  | [] => []
  | c :: t => if drop c then lstrip_by t else s
  end.

Fixpoint rstrip_by (s : str) : str :=
  match s with
  | [] => []
  | c :: t =>
      match rstrip_by t with
      | [] => if drop c then [] else [c]
      | t' => c :: t'
      end
  end.

End Strip.

(** [s.rstrip(chars)]: remove every trailing character that occurs in [chars]. *)
Definition rstrip (chars : str) (s : str) : str := rstrip_by (mem chars) s.

(** [s.strip()]: remove leading and trailing whitespace. *)
Definition strip (s : str) : str := rstrip_by isspace (lstrip_by isspace s).

(** [str(n)] and [f"{n}"] for a non-negative [int]: its decimal digits. *)
Fixpoint uint_chars (d : Decimal.uint) : str :=
  match d with
  | Decimal.Nil => []
  | Decimal.D0 d => 48%N :: uint_chars d
  | Decimal.D1 d => 49%N :: uint_chars d
  | Decimal.D2 d => 50%N :: uint_chars d
  | Decimal.D3 d => 51%N :: uint_chars d
  | Decimal.D4 d => 52%N :: uint_chars d
  | Decimal.D5 d => 53%N :: uint_chars d
  | Decimal.D6 d => 54%N :: uint_chars d
  | Decimal.D7 d => 55%N :: uint_chars d
  | Decimal.D8 d => 56%N :: uint_chars d
  | Decimal.D9 d => 57%N :: uint_chars d
  end.

Definition str_of_nat (n : nat) : str := uint_chars (Nat.to_uint n).

(** ** Line iteration over a text stream *)

(** The complete lines of a buffer (each ends with its ["\n"]) and the
    unterminated rest. *)
Fixpoint complete_lines (s : str) : list str * str :=
  match s with
  | [] => ([], [])
  | c :: rest =>
      let (ls, p) := complete_lines rest in
      if (c =? NL)%N then ([c] :: ls, p)
      else match ls with
           | [] => ([], c :: p)
           | l :: ls' => ((c :: l) :: ls', p)
           end
  end.

(** The lines a text yields when iterated: every line keeps its ["\n"];
    a last line without one is yielded as it is. *)
Definition readlines (text : str) : list str :=
  let (ls, p) := complete_lines text in
  ls ++ (if bool_of_str p then [p] else []).

(** ** [dict] and [collections.Counter] *)

Definition dict := list (str * nat).

Fixpoint dict_get (d : dict) (k : str) (default : nat) : nat :=
  match d with
  | [] => default
  | (k', v) :: d' => if str_eq_dec k' k then v else dict_get d' k default
  end.

(** [d[k] = v]: an existing key keeps its position, a new one goes last. *)
Fixpoint dict_set (d : dict) (k : str) (v : nat) : dict :=
  match d with
  | [] => [(k, v)]
  | (k', v') :: d' =>
      if str_eq_dec k' k then (k', v) :: d' else (k', v') :: dict_set d' k v
  end.

(** [mapping[elem] = mapping.get(elem, 0) + 1] *)
Definition incr (mapping : dict) (elem : str) : dict :=
  dict_set mapping elem (dict_get mapping elem 0 + 1).

(** [_count_elements(mapping, iterable)]:
    [for elem in iterable: mapping[elem] = mapping.get(elem, 0) + 1]. *)
Definition count_elements (mapping : dict) (iterable : list str) : dict :=
  fold_left incr iterable mapping.

Definition Counter (iterable : list str) : dict := count_elements [] iterable.

Section Sorted.

Variable A : Type.
Variable key : A -> nat.

Fixpoint insert_by (x : A) (l : list A) : list A :=
  match l with
  | [] => [x]
  | y :: t => if key x <=? key y then x :: l else y :: insert_by x t
  end.

(** A stable ascending sort: equal keys keep their order. *)
Definition stable_sort (l : list A) : list A := fold_right insert_by [] l.

(** [sorted(l, key=key, reverse=reverse)].  With [reverse=True] the list
    is reversed, sorted and reversed again, which keeps the sort stable. *)
Definition sorted (reverse : bool) (l : list A) : list A :=
  if reverse then rev (stable_sort (rev l)) else stable_sort l.

(** What a stable sort promises, [before] being the order of the
    elements in the list to sort. *)
Variable before : A -> A -> Prop.

Definition ascending (a b : A) : Prop :=
  key a < key b \/ (key a = key b /\ before a b).

Definition descending (a b : A) : Prop :=
  key a > key b \/ (key a = key b /\ before a b).

End Sorted.

(** [Counter.most_common()]:
    [sorted(self.items(), key=itemgetter(1), reverse=True)]. *)
Definition most_common (c : dict) : list (str * nat) :=
  sorted (@snd str nat) true c.

(** ** Effects: standard streams and exceptions *)

(** What one read of the input stream delivers: some decoded text, or a
    failure of the read.  The end of the list is the end of the stream. *)
Inductive read_event :=
| Data (chunk : str)
| IOFault.

Inductive exn :=
| OSError
| SystemExit (code : Z).

Record world := World { stdin : list read_event; stdout : str }.

Inductive outcome (A : Type) :=
| Returned (a : A)
| Raised (e : exn).

Arguments Raised {A} e.

Module Py.

Definition t (A : Type) : Type := world -> outcome A * world.

Definition ret {A} (a : A) : t A := fun w => (Returned a, w).

Definition bind {A B} (m : t A) (k : A -> t B) : t B :=
  fun w =>
    match m w with
    | (Returned a, w') => k a w'
    | (Raised e, w') => (Raised e, w')
    end.

Definition raise {A} (e : exn) : t A := fun w => (Raised e, w).

End Py.

Notation "x <- m ;; k" := (Py.bind m (fun x => k))
  (at level 61, m at next level, right associativity).
Notation "m ;; k" := (Py.bind m (fun _ => k))
  (at level 61, right associativity).

(** How an iteration ends. *)
Inductive iter_end :=
| StopIteration
| Raises (e : exn).

(** [for line in sys.stdin]: the lines yielded, how the iteration ends and
    what is left of the stream.  [pending] is the text already read that
    has not been yielded yet. *)
Fixpoint iter_lines (pending : str) (evs : list read_event)
  : list str * iter_end * list read_event :=
  match evs with
  | [] => (if bool_of_str pending then [pending] else [], StopIteration, [])
  | Data chunk :: evs' =>
      let (ls, p) := complete_lines (pending ++ chunk) in
      let '(ls', e, rest) := iter_lines p evs' in
      (ls ++ ls', e, rest)
  | IOFault :: evs' => ([], Raises OSError, evs')
  end.

(** [[elt(line) for line in sys.stdin if cond(line)]]: the list exists only
    when the iteration reaches the end of the stream. *)
Definition list_comp_stdin {B} (elt : str -> B) (cond : str -> bool)
  : Py.t (list B) :=
  fun w =>
    match iter_lines [] (stdin w) with
    | (ls, StopIteration, rest) =>
        (Returned (map elt (filter cond ls)), World rest (stdout w))
    | (_, Raises e, rest) => (Raised e, World rest (stdout w))
    end.

(** [print(s)]: [s] and the terminator ["\n"] go to standard output. *)
Definition print (s : str) : Py.t unit :=
  fun w => (Returned tt, World (stdin w) (stdout w ++ s ++ [NL])).

Fixpoint for_each {A} (l : list A) (body : A -> Py.t unit) : Py.t unit :=
  match l with
  | [] => Py.ret tt
  | x :: t => body x ;; for_each t body
  end.

(** ** The program *)

(** The condition and the element of the list comprehension. *)
Definition keeps (line : str) : bool := bool_of_str (strip line).
Definition text_of (line : str) : str := rstrip [NL] line.

(** [f"{n}\t{line}"] *)
Definition fstring (n : nat) (line : str) : str :=
  str_of_nat n ++ [TAB] ++ line.

Definition main : Py.t Z :=
  lines <- list_comp_stdin text_of keeps ;;
  let counts := Counter lines in
  for_each (most_common counts) (fun '(line, n) => print (fstring n line)) ;;
  Py.ret 0%Z.

(** [raise SystemExit(main())] *)
Definition script : Py.t unit :=
  code <- main ;;
  Py.raise (SystemExit code).

(** The exit status of the interpreter: the code of [SystemExit], 1 for
    any other exception that reaches the top level, 0 otherwise. *)
Definition exit_status {A} (o : outcome A) : Z :=
  match o with
  | Returned _ => 0
  | Raised (SystemExit code) => code
  | Raised OSError => 1
  end.

(** One run of the program on an input stream: exit status and everything
    written to standard output. *)
Definition run (evs : list read_event) : Z * str :=
  let (o, w) := script (World evs []) in (exit_status o, stdout w).

(** ** The report as a function of the input text *)

(** The value of [lines] when the stream delivers [text] and then ends. *)
Definition lines_of (text : str) : list str :=
  map text_of (filter keeps (readlines text)).

(** The entries [counts.most_common()] iterates over, as [(line, n)]. *)
Definition report (text : str) : list (str * nat) :=
  most_common (Counter (lines_of text)).

Definition render (entry : str * nat) : str :=
  let (line, n) := entry in fstring n line ++ [NL].

(** The text a stream delivers when no read fails. *)
Fixpoint stream_text (evs : list read_event) : str :=
  match evs with
  | [] => []
  | Data chunk :: evs' => chunk ++ stream_text evs'
  | IOFault :: evs' => stream_text evs'
  end.

Definition is_data (ev : read_event) : bool :=
  match ev with
  | Data _ => true
  | IOFault => false
  end.

(** No read of the stream fails. *)
Definition readable (evs : list read_event) : bool := forallb is_data evs.

(** Every line of the input with its terminator removed, blank ones too. *)
Definition input_texts (text : str) : list str :=
  map text_of (readlines text).

(** Position of the first occurrence of [x], as [list.index]; the length of
    the list when [x] does not occur. *)
Fixpoint first_index (x : str) (l : list str) : nat :=
  match l with
  | [] => 0
  | y :: t => if str_eq_dec y x then 0 else S (first_index x t)
  end.

(** A line is blank when it holds whitespace only. *)
Definition blank (s : str) : bool := forallb isspace s.

(** Test inputs: the given lines, each followed by ["\n"]. *)
Definition unlines (ls : list String.string) : str :=
  concat (map (fun l => py l ++ [NL]) ls).

Local Open Scope string_scope.
Local Open Scope list_scope.

(** ** Notions the properties are stated with *)

(** The keys and the values of a dictionary, in its order. *)
Definition keys (d : dict) : list str := map fst d.
Definition values (d : dict) : list nat := map snd d.

Definition nonblank (t : str) : bool := negb (blank t).

(** A line that ends with its terminator and has no other. *)
Definition terminated (l : str) : Prop := exists t, l = t ++ [NL] /\ ~ In NL t.

(** The input with its blank lines deleted. *)
Definition delete_blank (text : str) : str :=
  concat (filter (fun line => nonblank (text_of line)) (readlines text)).

Definition is_digit (c : char) : bool := (48 <=? c)%N && (c <=? 57)%N.

(** The number a string of decimal digits denotes. *)
Definition digits_value (s : str) : nat :=
  fold_left (fun acc c => 10 * acc + (N.to_nat c - 48)) s 0.

Definition VT : char := 0x0B%N.     (* vertical tab *)
Definition FF : char := 0x0C%N.     (* form feed *)
Definition CR : char := 0x0D%N.     (* carriage return *)
Definition NBSP : char := 0xA0%N.   (* no-break space *)

(** Sample inputs. *)
Definition sample_chunks : list read_event :=
  [Data (py "err"); Data (py "or 1" ++ [NL] ++ py "ok" ++ [NL] ++ py "error");
   Data (py " 1" ++ [NL])].

Definition sample_spaced : str :=
  py "  Disk  FULL " ++ [CR; NL] ++ py "  disk  full " ++ [NL]
  ++ py "  Disk  FULL " ++ [CR].

(** A line of whitespace from all over the table, and the same line with
    one zero width space (U+200B, which is not whitespace) in it. *)
Definition sample_blank_line : str :=
  [VT; NBSP; FF; CR; TAB; 0x1C; 0x85; 0x1680; 0x2003; 0x2028; 0x3000; NL]%N.

Definition sample_marked_line : str :=
  [VT; NBSP; 0x200B; FF; CR; TAB; 0x85; 0x2028; 0x3000; NL]%N.

Definition sample_unicode_blank : str :=
  sample_blank_line ++ sample_marked_line ++ py "x" ++ [NL] ++ [NBSP].

Definition sample_ties : str := unlines ["b"; "a"; "c"; ""; "a"; "c"].

(** * Properties *)

(** ** The scenarios of the specification *)

Example scenario1 :
  run [Data (unlines ["a"; "b"; "a"])]
  = (0%Z, py "2" ++ [TAB] ++ py "a" ++ [NL] ++ py "1" ++ [TAB] ++ py "b" ++ [NL]).
Proof. reflexivity. Qed.

Example scenario2 : run [] = (0%Z, []).
Proof. reflexivity. Qed.

Example scenario4 :
  run [Data (unlines ["a"; "b"; "c"])]
  = (0%Z, py "1" ++ [TAB] ++ py "a" ++ [NL] ++ py "1" ++ [TAB] ++ py "b" ++ [NL]
          ++ py "1" ++ [TAB] ++ py "c" ++ [NL]).
Proof. reflexivity. Qed.

Example only_blank_lines :
  run [Data (unlines [""; "   "; ""])] = (0%Z, []).
Proof. reflexivity. Qed.

Example read_failure :
  run [Data (unlines ["a"; "b"]); IOFault; Data (unlines ["a"])] = (1%Z, []).
Proof. reflexivity. Qed.

(** ** Lines of a text *)

Lemma complete_lines_app (a b : str) :
  complete_lines (a ++ b) =
    let (la, pa) := complete_lines a in
    let (lb, pb) := complete_lines (pa ++ b) in
    (la ++ lb, pb).
Proof.
  induction a as [|c a IH]; cbn [complete_lines app].
  - destruct (complete_lines b); reflexivity.
  - rewrite IH. destruct (complete_lines a) as [la pa].
    destruct (N.eqb c NL) eqn:Ec.
    + destruct (complete_lines (pa ++ b)). reflexivity.
    + destruct la as [|l la]; cbn [complete_lines app].
      * destruct (complete_lines (pa ++ b)) as [lb pb]. rewrite Ec.
        destruct lb; reflexivity.
      * destruct (complete_lines (pa ++ b)) as [lb pb]. reflexivity.
Qed.

Lemma complete_lines_rest (s : str) :
  ~ In NL (snd (complete_lines s)).
Proof.
  induction s as [|c s IH]; simpl; [tauto|].
  destruct (complete_lines s) as [ls p]. simpl in IH.
  destruct (N.eqb_spec c NL) as [E|E]; [exact IH|].
  destruct ls; simpl; [|exact IH].
  intros [H|H]; [congruence|tauto].
Qed.

Lemma complete_lines_no_NL (s : str) :
  ~ In NL s -> complete_lines s = ([], s).
Proof.
  induction s as [|c s IH]; simpl; intros H; [reflexivity|].
  rewrite IH by tauto.
  destruct (N.eqb_spec c NL) as [E|E]; [|reflexivity].
  exfalso. apply H. left. exact E.
Qed.

(** Every complete line is some text without ["\n"], then ["\n"]. *)
Lemma complete_lines_shape (s : str) :
  Forall (fun l => exists t, l = t ++ [NL] /\ ~ In NL t)
         (fst (complete_lines s)).
Proof.
  induction s as [|c s IH]; simpl; [constructor|].
  destruct (complete_lines s) as [ls p]. simpl in IH.
  destruct (N.eqb_spec c NL) as [E|E]; simpl.
  - constructor; [|exact IH]. exists []. subst c. simpl. tauto.
  - destruct ls as [|l ls]; simpl; [constructor|].
    inversion IH as [|? ? [t [Ht Hn]] Hls]; subst.
    constructor; [|exact Hls].
    exists (c :: t). split; [reflexivity|].
    intros [H|H]; [congruence|tauto].
Qed.

Lemma readlines_app (a b : str) :
  readlines (a ++ b) =
    fst (complete_lines a) ++ readlines (snd (complete_lines a) ++ b).
Proof.
  unfold readlines. rewrite complete_lines_app.
  destruct (complete_lines a) as [la pa]. simpl.
  destruct (complete_lines (pa ++ b)) as [lb pb].
  rewrite app_assoc. reflexivity.
Qed.

(** The shape of a yielded line: terminated, or the unterminated last one. *)
Lemma readlines_shape (text line : str) :
  In line (readlines text) ->
  (exists t, line = t ++ [NL] /\ ~ In NL t) \/ (~ In NL line /\ line <> []).
Proof.
  unfold readlines. intros H.
  pose proof (complete_lines_shape text) as Hs.
  pose proof (complete_lines_rest text) as Hr.
  destruct (complete_lines text) as [ls p]. simpl in Hs, Hr.
  apply in_app_or in H. destruct H as [H|H].
  - left. rewrite Forall_forall in Hs. apply Hs. exact H.
  - right. destruct p as [|c p]; simpl in H; [tauto|].
    destruct H as [H|[]]. subst line. split; [exact Hr|discriminate].
Qed.

(** ** The stream iterator *)

Lemma iter_lines_readable (evs : list read_event) :
  forall pending,
    ~ In NL pending ->
    readable evs = true ->
    iter_lines pending evs
    = (readlines (pending ++ stream_text evs), StopIteration, []).
Proof.
  induction evs as [|ev evs IH]; intros p Hp Hr.
  - simpl. rewrite app_nil_r. unfold readlines.
    rewrite complete_lines_no_NL by exact Hp. reflexivity.
  - destruct ev as [chunk|]; simpl in Hr; [|discriminate].
    simpl. rewrite app_assoc, readlines_app.
    pose proof (complete_lines_rest (p ++ chunk)) as Hq.
    destruct (complete_lines (p ++ chunk)) as [ls q]. simpl in *.
    rewrite (IH q Hq Hr). reflexivity.
Qed.

Lemma iter_lines_fault (evs : list read_event) :
  forall pending,
    readable evs = false ->
    snd (fst (iter_lines pending evs)) = Raises OSError.
Proof.
  induction evs as [|ev evs IH]; intros p Hr; [discriminate|].
  destruct ev as [chunk|]; simpl in *; [|reflexivity].
  destruct (complete_lines (p ++ chunk)) as [ls q].
  specialize (IH q Hr).
  destruct (iter_lines q evs) as [[ls' e] rest]. exact IH.
Qed.

(** ** Running the program *)

Lemma for_each_print (l : list (str * nat)) :
  forall w,
    for_each l (fun '(line, n) => print (fstring n line)) w
    = (Returned tt, World (stdin w) (stdout w ++ concat (map render l))).
Proof.
  induction l as [|[line n] l IH]; intros [i o]; simpl.
  - rewrite app_nil_r. reflexivity.
  - unfold Py.bind, print at 1. simpl. rewrite IH. simpl.
    rewrite <- !app_assoc. reflexivity.
Qed.

(** When no read fails, the program prints the rendered report of the
    text that was delivered and exits with status 0. *)
Lemma run_readable (evs : list read_event) :
  readable evs = true ->
  run evs = (0%Z, concat (map render (report (stream_text evs)))).
Proof.
  intros Hr. unfold run, script, main, Py.bind, list_comp_stdin. simpl.
  rewrite (@iter_lines_readable evs [] (fun H => H) Hr). simpl.
  rewrite for_each_print. reflexivity.
Qed.

(** When a read fails, nothing is printed and the status is 1. *)
Lemma run_fault (evs : list read_event) :
  readable evs = false ->
  run evs = (1%Z, []).
Proof.
  intros Hr. unfold run, script, main, Py.bind, list_comp_stdin. simpl.
  pose proof (@iter_lines_fault evs [] Hr) as H.
  destruct (iter_lines [] evs) as [[ls e] rest]. simpl in H. subst e.
  reflexivity.
Qed.

(** ** The dictionary of counts *)

Lemma dict_get_set (d : dict) (x k : str) (v default : nat) :
  dict_get (dict_set d x v) k default
  = if str_eq_dec x k then v else dict_get d k default.
Proof.
  induction d as [|[k' v'] d IH]; simpl.
  - reflexivity.
  - destruct (str_eq_dec k' x) as [E|E]; simpl.
    + subst k'. destruct (str_eq_dec x k); reflexivity.
    + destruct (str_eq_dec k' k) as [E'|E'].
      * subst k'. destruct (str_eq_dec x k); [congruence|reflexivity].
      * exact IH.
Qed.

Lemma keys_dict_set (d : dict) (x : str) (v : nat) :
  keys (dict_set d x v)
  = if in_dec str_eq_dec x (keys d) then keys d else keys d ++ [x].
Proof.
  induction d as [|[k' v'] d IH]; simpl; [reflexivity|].
  destruct (str_eq_dec k' x) as [E|E]; simpl.
  - reflexivity.
  - rewrite IH. destruct (in_dec str_eq_dec x (keys d)); reflexivity.
Qed.

Lemma count_elements_snoc (d : dict) (ls : list str) (x : str) :
  count_elements d (ls ++ [x]) = incr (count_elements d ls) x.
Proof. unfold count_elements. rewrite fold_left_app. reflexivity. Qed.

Lemma dict_get_count_elements (ls : list str) :
  forall (d : dict) (k : str),
    dict_get (count_elements d ls) k 0
    = dict_get d k 0 + count_occ str_eq_dec ls k.
Proof.
  induction ls as [|x ls IH]; intros d k; simpl.
  - lia.
  - change (dict_get (count_elements (incr d x) ls) k 0
            = dict_get d k 0
              + (if str_eq_dec x k then S (count_occ str_eq_dec ls k)
                 else count_occ str_eq_dec ls k)).
    rewrite IH. unfold incr. rewrite dict_get_set.
    destruct (str_eq_dec x k); [subst; lia|reflexivity].
Qed.

Lemma dict_get_Counter (ls : list str) (k : str) :
  dict_get (Counter ls) k 0 = count_occ str_eq_dec ls k.
Proof. unfold Counter. rewrite dict_get_count_elements. reflexivity. Qed.

Lemma dict_get_In (d : dict) (k : str) (v default : nat) :
  NoDup (keys d) -> In (k, v) d -> dict_get d k default = v.
Proof.
  induction d as [|[k' v'] d IH]; simpl; intros Hn Hi; [tauto|].
  inversion Hn as [|? ? Hk Hd]; subst.
  destruct Hi as [Hi|Hi].
  - inversion Hi; subst. destruct (str_eq_dec k k); [reflexivity|congruence].
  - destruct (str_eq_dec k' k) as [E|E].
    + subst k'. exfalso. apply Hk. unfold keys.
      change k with (fst (k, v)). apply in_map. exact Hi.
    + apply IH; assumption.
Qed.

Lemma NoDup_snoc (A : Type) (l : list A) (x : A) :
  NoDup l -> ~ In x l -> NoDup (l ++ [x]).
Proof.
  intros Hn Hx. apply NoDup_rev in Hn.
  rewrite <- (rev_involutive (l ++ [x])). apply NoDup_rev.
  rewrite rev_app_distr. simpl. constructor; [|exact Hn].
  rewrite <- in_rev. exact Hx.
Qed.

(** The keys of a [Counter] are the distinct elements counted. *)
Lemma keys_Counter (ls : list str) :
  NoDup (keys (Counter ls)) /\
  (forall k, In k (keys (Counter ls)) <-> In k ls).
Proof.
  unfold Counter.
  induction ls as [|x ls [IHn IHi]] using rev_ind.
  - simpl. split; [constructor|tauto].
  - rewrite count_elements_snoc. unfold incr. rewrite keys_dict_set.
    destruct (in_dec str_eq_dec x (keys (count_elements [] ls))) as [Hx|Hx].
    + split; [exact IHn|]. intros k. rewrite IHi, in_app_iff. simpl.
      split; [tauto|]. intros [H|[H|[]]]; [exact H|].
      subst k. apply IHi. exact Hx.
    + split; [apply NoDup_snoc; assumption|].
      intros k. rewrite !in_app_iff, IHi. reflexivity.
Qed.

(** Every item of a [Counter] pairs an element with its number of
    occurrences, which is at least one. *)
Lemma Counter_items (ls : list str) (k : str) (n : nat) :
  In (k, n) (Counter ls) ->
  n = count_occ str_eq_dec ls k /\ In k ls /\ 1 <= n.
Proof.
  intros H. destruct (keys_Counter ls) as [Hn Hi].
  assert (Hk : In k ls).
  { apply Hi. unfold keys. change k with (fst (k, n)). apply in_map, H. }
  assert (E : n = count_occ str_eq_dec ls k).
  { rewrite <- dict_get_Counter. symmetry. apply dict_get_In; assumption. }
  split; [exact E|]. split; [exact Hk|].
  rewrite E. apply (count_occ_In str_eq_dec) in Hk. lia.
Qed.

Lemma Counter_complete (ls : list str) (k : str) :
  In k ls -> In (k, count_occ str_eq_dec ls k) (Counter ls).
Proof.
  intros Hk. destruct (keys_Counter ls) as [Hn Hi].
  apply Hi in Hk. unfold keys in Hk. apply in_map_iff in Hk.
  destruct Hk as [[k' n] [E H]]. simpl in E. subst k'.
  destruct (Counter_items _ _ _ H) as [En _]. subst n. exact H.
Qed.

Lemma sum_values_incr (d : dict) (x : str) :
  list_sum (values (incr d x)) = list_sum (values d) + 1.
Proof.
  unfold incr. induction d as [|[k v] d IH]; simpl; [reflexivity|].
  destruct (str_eq_dec k x) as [E|E]; simpl; [lia|].
  rewrite IH. lia.
Qed.

(** The counts of a [Counter] add up to the number of elements counted. *)
Lemma sum_values_Counter (ls : list str) :
  list_sum (values (Counter ls)) = length ls.
Proof.
  unfold Counter. induction ls as [|x ls IH] using rev_ind; [reflexivity|].
  rewrite count_elements_snoc, sum_values_incr, IH, length_app. reflexivity.
Qed.

(** ** First-occurrence order *)

Lemma first_index_lt (x : str) (l : list str) :
  In x l -> first_index x l < length l.
Proof.
  induction l as [|y l IH]; simpl; [tauto|].
  intros H. destruct (str_eq_dec y x) as [E|E]; [lia|].
  destruct H as [H|H]; [congruence|]. apply IH in H. lia.
Qed.

Lemma first_index_app_l (x : str) (l l' : list str) :
  In x l -> first_index x (l ++ l') = first_index x l.
Proof.
  induction l as [|y l IH]; simpl; [tauto|].
  intros H. destruct (str_eq_dec y x) as [E|E]; [reflexivity|].
  destruct H as [H|H]; [congruence|]. rewrite IH by exact H. reflexivity.
Qed.

Lemma first_index_snoc_new (x : str) (l : list str) :
  ~ In x l -> first_index x (l ++ [x]) = length l.
Proof.
  induction l as [|y l IH]; simpl; intros H.
  - destruct (str_eq_dec x x); [reflexivity|congruence].
  - destruct (str_eq_dec y x) as [E|E]; [tauto|].
    rewrite IH by tauto. reflexivity.
Qed.

(** Filtering a list keeps the order of first occurrence of the elements
    that pass the filter. *)
Lemma first_index_filter (p : str -> bool) (a b : str) (l : list str) :
  p a = true -> p b = true ->
  first_index a (filter p l) < first_index b (filter p l) ->
  first_index a l < first_index b l.
Proof.
  intros Ha Hb. induction l as [|y l IH]; simpl; [lia|].
  destruct (str_eq_dec y a) as [Ea|Ea].
  - subst y. rewrite Ha. simpl.
    destruct (str_eq_dec a a); [|congruence].
    destruct (str_eq_dec a b); lia.
  - destruct (str_eq_dec y b) as [Eb|Eb].
    + subst y. rewrite Hb. simpl.
      destruct (str_eq_dec b b); [lia|congruence].
    + destruct (p y); simpl.
      * destruct (str_eq_dec y a); [congruence|].
        destruct (str_eq_dec y b); [congruence|].
        intros H. apply Nat.succ_lt_mono in H. apply IH in H. lia.
      * intros H. apply IH in H. lia.
Qed.

Section Snoc.

Variable A : Type.

Lemma StronglySorted_snoc (R : A -> A -> Prop) (l : list A) (x : A) :
  StronglySorted R l -> Forall (fun a => R a x) l ->
  StronglySorted R (l ++ [x]).
Proof.
  induction 1 as [|a l Hs IH Ha]; intros Hx; simpl.
  - repeat constructor.
  - inversion Hx; subst. constructor; [apply IH; assumption|].
    apply Forall_app. split; [exact Ha|]. repeat constructor. assumption.
Qed.

Lemma StronglySorted_rev (R : A -> A -> Prop) (l : list A) :
  StronglySorted R l -> StronglySorted (fun a b => R b a) (rev l).
Proof.
  induction 1 as [|a l Hs IH Ha]; simpl; [constructor|].
  apply StronglySorted_snoc; [exact IH|].
  apply Forall_rev. exact Ha.
Qed.

Lemma StronglySorted_impl (R R' : A -> A -> Prop) (l : list A) :
  (forall a b, R a b -> R' a b) ->
  StronglySorted R l -> StronglySorted R' l.
Proof.
  intros HR. induction 1 as [|a l Hs IH Ha]; constructor; [exact IH|].
  eapply Forall_impl; [|exact Ha]. apply HR.
Qed.

Lemma StronglySorted_nth (R : A -> A -> Prop) (l : list A) :
  StronglySorted R l ->
  forall i j a b,
    i < j -> nth_error l i = Some a -> nth_error l j = Some b -> R a b.
Proof.
  induction 1 as [|x l Hs IH Hx]; intros i j a b Hij Hi Hj.
  - destruct i; discriminate.
  - destruct j as [|j]; [lia|]. simpl in Hj.
    destruct i as [|i]; simpl in Hi.
    + inversion Hi; subst. rewrite Forall_forall in Hx.
      apply Hx. eapply nth_error_In. exact Hj.
    + apply (IH i j); [lia|assumption|assumption].
Qed.

End Snoc.

(** The keys of a [Counter] are in the order of their first occurrence. *)
Lemma keys_Counter_order (ls : list str) :
  StronglySorted (fun a b => first_index a ls < first_index b ls)
                 (keys (Counter ls)).
Proof.
  induction ls as [|x ls IH] using rev_ind; [constructor|].
  assert (Hi : forall k, In k (keys (Counter ls)) -> In k ls).
  { intros k. apply (keys_Counter ls). }
  assert (Hold : StronglySorted
            (fun a b => first_index a (ls ++ [x]) < first_index b (ls ++ [x]))
            (keys (Counter ls))).
  { revert IH Hi. generalize (keys (Counter ls)) as ks.
    induction 1 as [|k ks Hs IHs Hk]; intros Hi; constructor.
    - apply IHs. intros k' Hk'. apply Hi. right. exact Hk'.
    - rewrite Forall_forall in *. intros k' Hk'.
      rewrite !first_index_app_l; [apply Hk; exact Hk'| |].
      + apply Hi. right. exact Hk'.
      + apply Hi. left. reflexivity. }
  unfold Counter in *. rewrite count_elements_snoc. unfold incr.
  rewrite keys_dict_set.
  destruct (in_dec str_eq_dec x (keys (count_elements [] ls))) as [Hx|Hx].
  - exact Hold.
  - apply StronglySorted_snoc; [exact Hold|].
    apply Forall_forall. intros k Hk.
    assert (Hkl : In k ls) by (apply Hi; exact Hk).
    rewrite first_index_app_l by exact Hkl.
    rewrite first_index_snoc_new.
    + apply first_index_lt. exact Hkl.
    + intros H. apply Hx. apply (keys_Counter ls). exact H.
Qed.

(** ** Sorting *)

Section SortedProps.

Variable A : Type.
Variable key : A -> nat.

Lemma insert_by_perm (x : A) (l : list A) :
  Permutation (insert_by key x l) (x :: l).
Proof.
  induction l as [|y l IH]; simpl; [reflexivity|].
  destruct (key x <=? key y); [reflexivity|].
  rewrite IH. apply perm_swap.
Qed.

Lemma stable_sort_perm (l : list A) : Permutation (stable_sort key l) l.
Proof.
  induction l as [|x l IH]; simpl; [reflexivity|].
  rewrite insert_by_perm, IH. reflexivity.
Qed.

Lemma sorted_perm (reverse : bool) (l : list A) :
  Permutation (sorted key reverse l) l.
Proof.
  destruct reverse; simpl; [|apply stable_sort_perm].
  rewrite <- Permutation_rev, stable_sort_perm, <- Permutation_rev.
  reflexivity.
Qed.

Variable before : A -> A -> Prop.

Lemma insert_by_sorted (x : A) (l : list A) :
  Forall (before x) l ->
  StronglySorted (ascending key before) l ->
  StronglySorted (ascending key before) (insert_by key x l).
Proof.
  intros Hx Hs. induction Hs as [|y l Hs IH Hy]; simpl.
  - repeat constructor.
  - inversion Hx as [|? ? Hxy Hxl]; subst.
    destruct (Nat.leb_spec (key x) (key y)) as [Hle|Hgt].
    + constructor; [constructor; assumption|].
      constructor.
      * destruct (Nat.eq_dec (key x) (key y)) as [E|E];
          [right; split; assumption|left; lia].
      * rewrite Forall_forall in *. intros z Hz.
        specialize (Hy z Hz). specialize (Hxl z Hz).
        assert (Hyz : key y <= key z) by (destruct Hy as [H|[H _]]; lia).
        destruct (Nat.eq_dec (key x) (key z)) as [E|E];
          [right; split; assumption|left; lia].
    + constructor; [apply IH; exact Hxl|].
      rewrite (insert_by_perm x l). constructor; [|exact Hy].
      unfold ascending. lia.
Qed.

Lemma stable_sort_sorted (l : list A) :
  StronglySorted before l ->
  StronglySorted (ascending key before) (stable_sort key l).
Proof.
  induction 1 as [|x l Hs IH Hx]; simpl; [constructor|].
  apply insert_by_sorted; [|exact IH].
  rewrite stable_sort_perm. exact Hx.
Qed.

End SortedProps.

(** Sorting in reverse gives descending keys, and elements with equal keys
    keep the order they had. *)
Lemma sorted_reverse_sorted (A : Type) (key : A -> nat)
      (before : A -> A -> Prop) (l : list A) :
  StronglySorted before l ->
  StronglySorted (descending key before) (sorted key true l).
Proof.
  intros Hs. simpl.
  apply StronglySorted_rev in Hs.
  apply (stable_sort_sorted key) in Hs.
  apply StronglySorted_rev in Hs.
  eapply StronglySorted_impl; [|exact Hs].
  unfold ascending, descending. intros a b [H|[H Hb]];
    [left; lia|right; split; [lia|exact Hb]].
Qed.

(** ** Blank lines and terminators *)

Lemma mem_In (chars : str) (c : char) : mem chars c = true <-> In c chars.
Proof.
  unfold mem. rewrite existsb_exists. split.
  - intros [x [Hx E]]. apply N.eqb_eq in E. subst x. exact Hx.
  - intros H. exists c. split; [exact H|apply N.eqb_refl].
Qed.

Lemma rstrip_by_cons_keep (drop : char -> bool) (c : char) (t : str) :
  drop c = false -> rstrip_by drop (c :: t) = c :: rstrip_by drop t.
Proof.
  intros H. simpl. rewrite H. destruct (rstrip_by drop t); reflexivity.
Qed.

(** The condition of the comprehension holds for the lines that are not
    blank. *)
Lemma keeps_blank (line : str) : keeps line = negb (blank line).
Proof.
  unfold keeps, strip, blank.
  induction line as [|c t IH]; [reflexivity|].
  cbn [lstrip_by forallb].
  destruct (isspace c) eqn:Ec; [exact IH|].
  rewrite rstrip_by_cons_keep by exact Ec. reflexivity.
Qed.

Lemma blank_rstrip_by (drop : char -> bool) (s : str) :
  (forall c, drop c = true -> isspace c = true) ->
  blank (rstrip_by drop s) = blank s.
Proof.
  intros Hd. unfold blank.
  induction s as [|c t IH]; [reflexivity|].
  cbn [rstrip_by forallb]. rewrite <- IH.
  destruct (rstrip_by drop t) as [|c' t'].
  - destruct (drop c) eqn:Ec.
    + rewrite (Hd c Ec). reflexivity.
    + reflexivity.
  - reflexivity.
Qed.

(** Removing the terminator does not change whether a line is blank. *)
Lemma blank_text_of (line : str) : blank (text_of line) = blank line.
Proof.
  apply blank_rstrip_by. intros c H. apply mem_In in H.
  destruct H as [H|[]]. subst c. reflexivity.
Qed.

Lemma keeps_text_of (line : str) : keeps line = negb (blank (text_of line)).
Proof. rewrite blank_text_of. apply keeps_blank. Qed.

Lemma rstrip_by_none (drop : char -> bool) (s : str) :
  Forall (fun c => drop c = false) s -> rstrip_by drop s = s.
Proof.
  induction 1 as [|c t Hc Ht IH]; [reflexivity|].
  rewrite rstrip_by_cons_keep by exact Hc. rewrite IH. reflexivity.
Qed.

Lemma mem_NL_false (c : char) : c <> NL -> mem [NL] c = false.
Proof.
  intros H. unfold mem. simpl. apply N.eqb_neq in H. rewrite H. reflexivity.
Qed.

Lemma not_In_NL (t : str) :
  ~ In NL t -> Forall (fun c => mem [NL] c = false) t.
Proof.
  intros H. apply Forall_forall. intros c Hc. apply mem_NL_false.
  intros E. subst c. exact (H Hc).
Qed.

(** A line without ["\n"] is left as it is. *)
Lemma text_of_unterminated (line : str) :
  ~ In NL line -> text_of line = line.
Proof. intros H. apply rstrip_by_none, not_In_NL, H. Qed.

(** A terminated line loses its ["\n"] and nothing else. *)
Lemma text_of_terminated (t : str) :
  ~ In NL t -> text_of (t ++ [NL]) = t.
Proof.
  unfold text_of, rstrip. induction t as [|c t IH]; intros H.
  - reflexivity.
  - cbn [app]. rewrite rstrip_by_cons_keep.
    + rewrite IH; [reflexivity|]. intros Hi. apply H. right. exact Hi.
    + apply mem_NL_false. intros E. apply H. left. exact E.
Qed.

Lemma filter_map_comm (A B : Type) (f : A -> B) (p : B -> bool) (l : list A) :
  filter p (map f l) = map f (filter (fun a => p (f a)) l).
Proof.
  induction l as [|a l IH]; simpl; [reflexivity|].
  destruct (p (f a)); simpl; rewrite IH; reflexivity.
Qed.

(** The tallied lines are the texts of the input that are not blank. *)
Lemma lines_of_input_texts (text : str) :
  lines_of text = filter nonblank (input_texts text).
Proof.
  unfold lines_of, input_texts. rewrite filter_map_comm. f_equal.
  apply filter_ext. intros l. apply keeps_text_of.
Qed.

Lemma lines_of_nonblank (text t : str) :
  In t (lines_of text) -> nonblank t = true.
Proof.
  rewrite lines_of_input_texts. intros H. apply filter_In in H. tauto.
Qed.

(** ** The report *)

Lemma report_perm (text : str) :
  Permutation (report text) (Counter (lines_of text)).
Proof. apply sorted_perm. Qed.

Lemma report_In (text t : str) (n : nat) :
  In (t, n) (report text) <->
  In t (lines_of text) /\ n = count_occ str_eq_dec (lines_of text) t.
Proof.
  split.
  - intros H. apply (Permutation_in _ (report_perm text)) in H.
    apply Counter_items in H. tauto.
  - intros [Ht En]. subst n.
    apply (Permutation_in _ (Permutation_sym (report_perm text))).
    apply Counter_complete. exact Ht.
Qed.

Lemma report_texts (text t : str) :
  In t (map fst (report text)) <-> In t (lines_of text).
Proof.
  rewrite in_map_iff. split.
  - intros [[t' n] [E H]]. simpl in E. subst t'.
    apply report_In in H. tauto.
  - intros H. exists (t, count_occ str_eq_dec (lines_of text) t).
    split; [reflexivity|]. apply report_In. tauto.
Qed.

Lemma StronglySorted_map (A B : Type) (f : A -> B) (R : B -> B -> Prop)
      (l : list A) :
  StronglySorted R (map f l) -> StronglySorted (fun a b => R (f a) (f b)) l.
Proof.
  induction l as [|a l IH]; simpl; intros H; [constructor|].
  inversion H as [|? ? Hs Ha]; subst.
  constructor; [apply IH; exact Hs|].
  rewrite Forall_map in Ha. exact Ha.
Qed.

(** The report is in descending order of count; entries with the same
    count are in the order of first occurrence among the tallied lines. *)
Lemma report_sorted (text : str) :
  StronglySorted
    (descending (@snd str nat)
       (fun a b => first_index (fst a) (lines_of text)
                   < first_index (fst b) (lines_of text)))
    (report text).
Proof.
  unfold report, most_common. apply sorted_reverse_sorted.
  apply (@StronglySorted_map _ _ (@fst str nat)
           (fun a b => first_index a (lines_of text)
                       < first_index b (lines_of text))).
  apply keys_Counter_order.
Qed.

Lemma list_sum_perm (l l' : list nat) :
  Permutation l l' -> list_sum l = list_sum l'.
Proof. induction 1; simpl; lia. Qed.

Lemma first_index_input (text a b : str) :
  In a (lines_of text) -> In b (lines_of text) ->
  first_index a (lines_of text) < first_index b (lines_of text) ->
  first_index a (input_texts text) < first_index b (input_texts text).
Proof.
  intros Ha Hb. rewrite lines_of_input_texts.
  apply first_index_filter; eapply lines_of_nonblank; eassumption.
Qed.

(** ** Decimal digits *)

Lemma uint_chars_digits (d : Decimal.uint) : forallb is_digit (uint_chars d) = true.
Proof. induction d; simpl; auto. Qed.

Lemma uint_chars_value (d : Decimal.uint) :
  forall acc,
    fold_left (fun acc c => 10 * acc + (N.to_nat c - 48)) (uint_chars d) acc
    = Nat.of_uint_acc d acc.
Proof.
  induction d; intros acc; cbn [uint_chars fold_left Nat.of_uint_acc];
    [reflexivity|..];
    rewrite IHd; f_equal; rewrite Nat.tail_mul_spec;
    match goal with
    | |- context [N.to_nat ?c] =>
        let v := eval vm_compute in (N.to_nat c - 48) in
        change (N.to_nat c - 48) with v
    end;
    lia.
Qed.

(** [str(n)] is made of decimal digits that denote [n]. *)
Lemma str_of_nat_spec (n : nat) :
  forallb is_digit (str_of_nat n) = true /\ digits_value (str_of_nat n) = n.
Proof.
  split; [apply uint_chars_digits|].
  unfold digits_value, str_of_nat. rewrite uint_chars_value.
  apply DecimalNat.Unsigned.of_to.
Qed.

Lemma lines_of_no_NL (text t : str) : In t (lines_of text) -> ~ In NL t.
Proof.
  unfold lines_of. rewrite in_map_iff. intros [l [E H]].
  apply filter_In in H. destruct H as [H _].
  apply readlines_shape in H. destruct H as [[t' [El Hn]]|[Hn _]].
  - subst l. rewrite text_of_terminated in E by exact Hn. subst t'. exact Hn.
  - rewrite text_of_unterminated in E by exact Hn. subst l. exact Hn.
Qed.

(** ** Texts made of lines *)

Lemma complete_lines_terminated (t : str) :
  ~ In NL t -> complete_lines (t ++ [NL]) = ([t ++ [NL]], []).
Proof.
  induction t as [|c t IH]; intros H; [reflexivity|].
  cbn [app complete_lines]. rewrite IH by (intros Hi; apply H; right; exact Hi).
  destruct (N.eqb_spec c NL) as [E|E]; [|reflexivity].
  exfalso. apply H. left. exact E.
Qed.

(** Iterating over the concatenation of terminated lines and an
    unterminated rest yields these lines again. *)
Lemma readlines_concat (ls : list str) (p : str) :
  Forall terminated ls -> ~ In NL p ->
  readlines (concat ls ++ p) = ls ++ (if bool_of_str p then [p] else []).
Proof.
  intros Hls Hp. induction Hls as [|l ls [t [El Ht]] Hls IH].
  - simpl. unfold readlines. rewrite complete_lines_no_NL by exact Hp.
    reflexivity.
  - subst l. cbn [concat]. rewrite <- app_assoc, readlines_app.
    rewrite complete_lines_terminated by exact Ht. simpl. rewrite IH.
    reflexivity.
Qed.

Lemma readlines_split (text : str) :
  exists ls p,
    Forall terminated ls /\ ~ In NL p /\
    text = concat ls ++ p /\
    readlines text = ls ++ (if bool_of_str p then [p] else []).
Proof.
  exists (fst (complete_lines text)), (snd (complete_lines text)).
  pose proof (complete_lines_shape text) as Hs.
  pose proof (complete_lines_rest text) as Hr.
  split; [exact Hs|]. split; [exact Hr|].
  assert (E : text = concat (fst (complete_lines text))
                     ++ snd (complete_lines text)).
  { clear. induction text as [|c text IH]; [reflexivity|].
    cbn [complete_lines]. destruct (complete_lines text) as [ls p].
    simpl in IH. destruct (N.eqb c NL).
    - simpl. f_equal. exact IH.
    - destruct ls as [|l ls]; simpl in *; f_equal; exact IH. }
  split; [exact E|].
  unfold readlines. destruct (complete_lines text). reflexivity.
Qed.

(** The lines of a text put together are the text. *)
Lemma concat_readlines (text : str) : concat (readlines text) = text.
Proof.
  destruct (readlines_split text) as [ls [p [_ [_ [E R]]]]].
  rewrite R, concat_app, E at 1. f_equal.
  destruct p; simpl; [reflexivity|]. rewrite app_nil_r. reflexivity.
Qed.

(** Deleting lines from a text deletes them from what the iteration
    yields. *)
Lemma readlines_filter (q : str -> bool) (text : str) :
  readlines (concat (filter q (readlines text))) = filter q (readlines text).
Proof.
  destruct (readlines_split text) as [ls [p [Hls [Hp [_ R]]]]].
  rewrite R, filter_app, concat_app.
  assert (Hf : Forall terminated (filter q ls)).
  { rewrite Forall_forall in *. intros l Hl. apply Hls.
    apply filter_In in Hl. tauto. }
  destruct p as [|c p]; simpl.
  - rewrite (@readlines_concat _ _ Hf Hp). reflexivity.
  - destruct (q (c :: p)); simpl.
    + rewrite app_nil_r. rewrite (@readlines_concat _ _ Hf Hp). reflexivity.
    + rewrite (@readlines_concat (filter q ls) [] Hf (fun H => H)).
      reflexivity.
Qed.

Lemma filter_idem (A : Type) (q : A -> bool) (l : list A) :
  filter q (filter q l) = filter q l.
Proof.
  induction l as [|a l IH]; simpl; [reflexivity|].
  destruct (q a) eqn:E; simpl; [rewrite E, IH|]; auto.
Qed.

(** A ["\n"] after the end of a text changes nothing in what is tallied. *)
Lemma lines_of_trailing_NL (text : str) :
  lines_of (text ++ [NL]) = lines_of text.
Proof.
  destruct (readlines_split text) as [ls [p [Hls [Hp [E R]]]]].
  unfold lines_of. rewrite R. rewrite E at 1. rewrite <- app_assoc.
  assert (Ht : Forall terminated (ls ++ [p ++ [NL]])).
  { apply Forall_app. split; [exact Hls|].
    constructor; [|constructor]. exists p. tauto. }
  replace (concat ls ++ p ++ [NL]) with (concat (ls ++ [p ++ [NL]]) ++ []).
  2:{ rewrite concat_app. simpl. rewrite !app_nil_r. reflexivity. }
  rewrite (@readlines_concat _ [] Ht (fun H => H)). simpl.
  rewrite app_nil_r, !filter_app, !map_app. f_equal.
  assert (Ek : keeps (p ++ [NL]) = keeps p).
  { rewrite !keeps_text_of, text_of_terminated, text_of_unterminated; auto. }
  cbn [filter]. rewrite Ek.
  assert (Et : text_of (p ++ [NL]) = text_of p).
  { rewrite text_of_terminated, text_of_unterminated; auto. }
  destruct (keeps p) eqn:Kp.
  - destruct p as [|c p]; [discriminate|].
    cbn [bool_of_str filter]. rewrite Kp. cbn [map]. rewrite Et. reflexivity.
  - destruct p as [|c p]; [reflexivity|].
    cbn [bool_of_str filter]. rewrite Kp. reflexivity.
Qed.

(** * The claims *)

(** C1. Sort correctness: of two entries of the report, the earlier one has
    the strictly greater count, or both have the same count and the line of
    the earlier one first occurs in the input no later than the line of the
    later one. *)
Theorem C1_sort_correctness (text : str) (i j : nat) (A B : str * nat) :
  i < j ->
  nth_error (report text) i = Some A ->
  nth_error (report text) j = Some B ->
  snd A > snd B \/
  (snd A = snd B /\
   first_index (fst A) (input_texts text)
   <= first_index (fst B) (input_texts text)).
Proof.
  intros Hij Hi Hj.
  pose proof (StronglySorted_nth (report_sorted text) Hij Hi Hj) as H.
  destruct H as [H|[E H]]; [left; exact H|right].
  split; [exact E|]. apply Nat.lt_le_incl.
  apply nth_error_In in Hi, Hj.
  destruct A as [a n], B as [b m]. simpl in *.
  apply report_In in Hi, Hj.
  apply first_index_input; tauto.
Qed.

Lemma C1_sort_correctness_witness :
  0 < 1 /\
  nth_error (report sample_ties) 0 = Some (py "a", 2) /\
  nth_error (report sample_ties) 1 = Some (py "c", 2) /\
  (2 > 2 \/
   (2 = 2 /\
    first_index (py "a") (input_texts sample_ties)
    <= first_index (py "c") (input_texts sample_ties))).
Proof.
  split; [lia|]. split; [reflexivity|]. split; [reflexivity|].
  apply (@C1_sort_correctness sample_ties 0 1 (py "a", 2) (py "c", 2));
    [lia|reflexivity|reflexivity].
Defined.

(** C2. Sum invariant: the counts of the report add up to the number of
    input lines that are not blank. *)
Theorem C2_sum_invariant (text : str) :
  list_sum (map snd (report text))
  = length (filter (fun line => nonblank (text_of line)) (readlines text)).
Proof.
  rewrite (list_sum_perm (Permutation_map snd (report_perm text))).
  fold (values (Counter (lines_of text))).
  rewrite sum_values_Counter. unfold lines_of. rewrite length_map.
  f_equal. apply filter_ext. intros l. apply keeps_text_of.
Qed.

(** C3. Blank lines are discarded: deleting them from the input changes
    nothing in the report (they are counted in no entry), no entry of the
    report has a blank text (they are not reported), and the input
    x, empty, y, two spaces, x is reported as (2, x) then (1, y). *)
Theorem C3_blank_lines_discarded (text : str) :
  report (delete_blank text) = report text /\
  Forall (fun entry : str * nat => blank (fst entry) = false) (report text) /\
  report (unlines ["x"; ""; "y"; "  "; "x"]) = [(py "x", 2); (py "y", 1)] /\
  run [Data (unlines ["x"; ""; "y"; "  "; "x"])]
  = (0%Z, py "2" ++ [TAB] ++ py "x" ++ [NL]
          ++ py "1" ++ [TAB] ++ py "y" ++ [NL]).
Proof.
  split; [|split; [|split; reflexivity]].
  - unfold report, delete_blank. f_equal. f_equal. unfold lines_of.
    rewrite readlines_filter. f_equal.
    assert (Ek : forall l, filter keeps l
                           = filter (fun line => nonblank (text_of line)) l).
    { intros l. apply filter_ext. intros a. apply keeps_text_of. }
    rewrite !Ek. apply filter_idem.
  - apply Forall_forall. intros [t n] H. simpl.
    apply report_In in H. destruct H as [H _].
    apply lines_of_nonblank in H. unfold nonblank in H.
    destruct (blank t); [discriminate|reflexivity].
Qed.

(** C4. Rendering: the output is the entries of the report in order, each
    as the decimal digits of its count, one tab, the exact line text and the
    terminator of [print]; the text holds no terminator of its own, so each
    entry is one output line. *)
Theorem C4_rendering (evs : list read_event) :
  readable evs = true ->
  snd (run evs) = concat (map render (report (stream_text evs))) /\
  Forall (fun entry : str * nat =>
            let (line, n) := entry in
            render entry = str_of_nat n ++ [TAB] ++ line ++ [NL] /\
            forallb is_digit (str_of_nat n) = true /\
            digits_value (str_of_nat n) = n /\
            ~ In NL line)
         (report (stream_text evs)).
Proof.
  intros Hr. rewrite (run_readable _ Hr). split; [reflexivity|].
  apply Forall_forall. intros [line n] H.
  split; [unfold render, fstring; rewrite <- !app_assoc; reflexivity|].
  destruct (str_of_nat_spec n) as [Hd Hv].
  split; [exact Hd|]. split; [exact Hv|].
  apply report_In in H. destruct H as [H _].
  eapply lines_of_no_NL. exact H.
Qed.

Lemma C4_rendering_witness :
  readable sample_chunks = true /\
  snd (run sample_chunks)
  = py "2" ++ [TAB] ++ py "error 1" ++ [NL]
    ++ py "1" ++ [TAB] ++ py "ok" ++ [NL].
Proof.
  split; [reflexivity|].
  rewrite (proj1 (@C4_rendering sample_chunks eq_refl)). reflexivity.
Defined.

(** C5. Only the terminator is removed: the tallied text of an input line
    is the line without its one trailing ["\n"], or the line itself when it
    has none, and a non-blank line is reported under exactly this text, with
    the number of input lines that have exactly this text. *)
Theorem C5_terminator_only (text line : str) :
  In line (readlines text) ->
  ((line = text_of line ++ [NL] /\ ~ In NL (text_of line)) \/
   (line = text_of line /\ ~ In NL line)) /\
  (nonblank (text_of line) = true ->
   In (text_of line, count_occ str_eq_dec (input_texts text) (text_of line))
      (report text)).
Proof.
  intros Hl. split.
  - destruct (readlines_shape _ _ Hl) as [[t [E Hn]]|[Hn _]].
    + left. subst line. rewrite text_of_terminated by exact Hn. tauto.
    + right. rewrite text_of_unterminated by exact Hn. tauto.
  - intros Hb. apply report_In.
    assert (Hi : In (text_of line) (lines_of text)).
    { rewrite lines_of_input_texts. apply filter_In. split; [|exact Hb].
      unfold input_texts. apply in_map. exact Hl. }
    split; [exact Hi|].
    rewrite lines_of_input_texts.
    clear Hi Hl. induction (input_texts text) as [|t l IH]; [reflexivity|].
    simpl. destruct (str_eq_dec t (text_of line)) as [E|E].
    + subst t. rewrite Hb. simpl.
      destruct (str_eq_dec (text_of line) (text_of line)); [|congruence].
      f_equal. exact IH.
    + destruct (nonblank t); simpl; [|exact IH].
      destruct (str_eq_dec t (text_of line)); [congruence|exact IH].
Qed.

Lemma C5_terminator_only_witness :
  In (py "  Disk  FULL " ++ [CR; NL]) (readlines sample_spaced) /\
  text_of (py "  Disk  FULL " ++ [CR; NL]) = py "  Disk  FULL " ++ [CR] /\
  In (py "  Disk  FULL " ++ [CR], 2) (report sample_spaced).
Proof.
  assert (Hl : In (py "  Disk  FULL " ++ [CR; NL]) (readlines sample_spaced)).
  { left. reflexivity. }
  split; [exact Hl|]. split; [reflexivity|].
  destruct (@C5_terminator_only sample_spaced _ Hl) as [_ H].
  apply H. reflexivity.
Defined.

(** C6. Distinctness: no two entries of the report have the same line text,
    and a text is reported exactly once when it is the text of a non-blank
    input line, however often it recurs, and not at all otherwise. *)
Theorem C6_distinctness (text : str) :
  NoDup (map fst (report text)) /\
  forall t : str,
    count_occ str_eq_dec (map fst (report text)) t
    = if in_dec str_eq_dec t (filter nonblank (input_texts text))
      then 1 else 0.
Proof.
  assert (Hn : NoDup (map fst (report text))).
  { eapply Permutation_NoDup.
    - apply Permutation_sym, Permutation_map, report_perm.
    - apply (keys_Counter (lines_of text)). }
  split; [exact Hn|]. intros t.
  rewrite <- lines_of_input_texts.
  destruct (in_dec str_eq_dec t (lines_of text)) as [H|H].
  - apply report_texts in H.
    apply NoDup_count_occ' with (decA := str_eq_dec); assumption.
  - apply count_occ_not_In. rewrite report_texts. exact H.
Qed.

(** C7. Exit status: when every read succeeds the program prints the report
    and exits with status 0, the empty input included; when a read fails it
    exits with status 1 and has printed nothing.  So the status is 0 exactly
    when no read fails. *)
Theorem C7_exit_status (evs : list read_event) :
  run evs = (if readable evs
             then (0%Z, concat (map render (report (stream_text evs))))
             else (1%Z, []))
  /\ (fst (run evs) = 0%Z <-> readable evs = true)
  /\ run [] = (0%Z, []).
Proof.
  assert (H : run evs = (if readable evs
                         then (0%Z, concat (map render (report (stream_text evs))))
                         else (1%Z, []))).
  { destruct (readable evs) eqn:Hr;
      [apply run_readable|apply run_fault]; exact Hr. }
  split; [exact H|]. split; [|reflexivity].
  rewrite H. destruct (readable evs); simpl; split; congruence.
Qed.

(** C8. Determinism: two runs that are delivered the same input text, in
    whatever pieces, print the same bytes and exit with the same status. *)
Theorem C8_determinism (evs1 evs2 : list read_event) :
  readable evs1 = true ->
  readable evs2 = true ->
  stream_text evs1 = stream_text evs2 ->
  run evs1 = run evs2.
Proof.
  intros H1 H2 E. rewrite (run_readable _ H1), (run_readable _ H2), E.
  reflexivity.
Qed.

Lemma C8_determinism_witness :
  readable sample_chunks = true /\
  readable [Data (stream_text sample_chunks)] = true /\
  stream_text sample_chunks = stream_text [Data (stream_text sample_chunks)] /\
  run sample_chunks = run [Data (stream_text sample_chunks)].
Proof.
  split; [reflexivity|]. split; [reflexivity|]. split; [reflexivity|].
  apply (@C8_determinism sample_chunks [Data (stream_text sample_chunks)]);
    reflexivity.
Defined.

(** C9. A last line without terminator is tallied as if it had one:
    whatever the input, and so also when its last line has no terminator,
    a ["\n"] added at its end changes neither the tallied lines, nor the
    report, nor the run; and the input a, newline, a reports the single
    entry (2, a). *)
Theorem C9_unterminated_last_line (text : str) :
  lines_of (text ++ [NL]) = lines_of text /\
  report (text ++ [NL]) = report text /\
  run [Data (text ++ [NL])] = run [Data text] /\
  report (py "a" ++ [NL] ++ py "a") = [(py "a", 2)].
Proof.
  pose proof (lines_of_trailing_NL text) as E.
  assert (R : report (text ++ [NL]) = report text).
  { unfold report. rewrite E. reflexivity. }
  split; [exact E|]. split; [exact R|]. split; [|reflexivity].
  rewrite !run_readable by reflexivity. simpl. rewrite !app_nil_r, R.
  reflexivity.
Qed.

(** C10. Blankness follows the full Unicode whitespace of [str.strip], not
    only space and tab: the characters that count as whitespace are exactly
    the 29 code points listed, vertical tab, form feed, carriage return
    and no-break space among them; an input line fails the condition of the
    comprehension exactly when every character of its text is one of them,
    and it is left out of the report exactly then, so that one other
    character makes the line kept and reported. *)
Theorem C10_unicode_blank (text line : str) :
  In line (readlines text) ->
  (forall c : char,
      isspace c = true <->
      In c [ 0x09; 0x0A; 0x0B; 0x0C; 0x0D; 0x1C; 0x1D; 0x1E; 0x1F; 0x20;
             0x85; 0xA0; 0x1680;
             0x2000; 0x2001; 0x2002; 0x2003; 0x2004; 0x2005;
             0x2006; 0x2007; 0x2008; 0x2009; 0x200A;
             0x2028; 0x2029; 0x202F; 0x205F; 0x3000 ]%N) /\
  (keeps line = false <->
   Forall (fun c => isspace c = true) (text_of line)) /\
  (keeps line = false <-> ~ In (text_of line) (map fst (report text))).
Proof.
  intros Hl.
  split; [intros c; apply mem_In|].
  assert (Hk : keeps line = false <->
               Forall (fun c => isspace c = true) (text_of line)).
  { rewrite keeps_text_of, Forall_forall, <- forallb_forall.
    fold (blank (text_of line)).
    destruct (blank (text_of line)); simpl; split; congruence. }
  split; [exact Hk|].
  rewrite report_texts. split.
  - intros Hf Hi. apply lines_of_nonblank in Hi. unfold nonblank in Hi.
    rewrite keeps_text_of in Hf. destruct (blank (text_of line));
      discriminate.
  - intros Hn. destruct (keeps line) eqn:Ek; [|reflexivity].
    exfalso. apply Hn. unfold lines_of. apply in_map.
    apply filter_In. split; assumption.
Qed.

Lemma C10_unicode_blank_witness :
  In sample_blank_line (readlines sample_unicode_blank) /\
  keeps sample_blank_line = false /\
  ~ In (text_of sample_blank_line) (map fst (report sample_unicode_blank)) /\
  In sample_marked_line (readlines sample_unicode_blank) /\
  keeps sample_marked_line = true /\
  In (text_of sample_marked_line) (map fst (report sample_unicode_blank)).
Proof.
  assert (Hb : In sample_blank_line (readlines sample_unicode_blank)).
  { left. reflexivity. }
  assert (Hm : In sample_marked_line (readlines sample_unicode_blank)).
  { right. left. reflexivity. }
  destruct (@C10_unicode_blank sample_unicode_blank _ Hb) as [_ [_ Hrb]].
  destruct (@C10_unicode_blank sample_unicode_blank _ Hm) as [_ [_ Hrm]].
  split; [exact Hb|]. split; [reflexivity|].
  split; [apply Hrb; reflexivity|].
  split; [exact Hm|]. split; [reflexivity|].
  destruct (in_dec str_eq_dec (text_of sample_marked_line)
                   (map fst (report sample_unicode_blank))) as [H|H];
    [exact H|].
  apply Hrm in H. discriminate H.
Defined.

(** * Further properties of the program *)

(** ** Looking an entry up *)

Lemma dict_get_absent (d : dict) (k : str) (default : nat) :
  ~ In k (keys d) -> dict_get d k default = default.
Proof.
  induction d as [|[k' v] d IH]; simpl; intros H; [reflexivity|].
  destruct (str_eq_dec k' k) as [E|E]; [tauto|]. apply IH. tauto.
Qed.

Lemma report_keys_NoDup (text : str) : NoDup (keys (report text)).
Proof.
  eapply Permutation_NoDup.
  - apply Permutation_sym, Permutation_map, report_perm.
  - apply (keys_Counter (lines_of text)).
Qed.

Lemma report_get (text t : str) :
  dict_get (report text) t 0 = count_occ str_eq_dec (lines_of text) t.
Proof.
  destruct (in_dec str_eq_dec t (lines_of text)) as [H|H].
  - apply dict_get_In; [apply report_keys_NoDup|].
    apply report_In. tauto.
  - rewrite dict_get_absent.
    + symmetry. apply count_occ_not_In. exact H.
    + unfold keys. rewrite report_texts. exact H.
Qed.

Lemma count_occ_filter (p : str -> bool) (t : str) (l : list str) :
  p t = true ->
  count_occ str_eq_dec (filter p l) t = count_occ str_eq_dec l t.
Proof.
  intros Hp. induction l as [|x l IH]; [reflexivity|].
  simpl. destruct (str_eq_dec x t) as [E|E].
  - subst x. rewrite Hp. simpl.
    destruct (str_eq_dec t t); [|congruence]. f_equal. exact IH.
  - destruct (p x); simpl; [|exact IH].
    destruct (str_eq_dec x t); [congruence|exact IH].
Qed.

Lemma complete_lines_ends_NL (a : str) :
  snd (complete_lines (a ++ [NL])) = [].
Proof.
  rewrite complete_lines_app.
  pose proof (complete_lines_rest a) as Hr.
  destruct (complete_lines a) as [la pa]. simpl in Hr.
  rewrite (@complete_lines_terminated pa Hr). reflexivity.
Qed.

Lemma lines_of_app (a b : str) :
  snd (complete_lines a) = [] ->
  lines_of (a ++ b) = lines_of a ++ lines_of b.
Proof.
  intros Hp. unfold lines_of. rewrite readlines_app, Hp. simpl.
  rewrite filter_app, map_app. f_equal.
  unfold readlines. destruct (complete_lines a) as [la pa].
  simpl in Hp. subst pa. simpl. rewrite app_nil_r. reflexivity.
Qed.

Lemma report_entry_iff (text t : str) (n : nat) :
  In (t, n) (report text) <->
  nonblank t = true /\
  In t (input_texts text) /\
  n = count_occ str_eq_dec (input_texts text) t.
Proof.
  rewrite report_In, lines_of_input_texts, filter_In. split.
  - intros [[Hi Hb] En]. rewrite count_occ_filter in En by exact Hb. tauto.
  - intros [Hb [Hi En]]. rewrite count_occ_filter by exact Hb. tauto.
Qed.

(** X1. The entries of the report are exactly the pairs of a non-blank
    text of the input and the number of input lines with that text, which
    is at least one. *)
Theorem X1_report_entries (text t : str) (n : nat) :
  In (t, n) (report text) <->
  nonblank t = true /\
  In t (input_texts text) /\
  n = count_occ str_eq_dec (input_texts text) t /\
  1 <= n.
Proof.
  rewrite report_entry_iff. split.
  - intros [Hb [Hi En]]. repeat split; try assumption.
    subst n. apply (count_occ_In str_eq_dec) in Hi. lia.
  - tauto.
Qed.

(** X2. Counts add up over concatenated inputs: when the first input is
    empty or ends with ["\n"], the count reported for a text on both inputs
    in a row is the sum of the counts reported on each; a text that is not
    reported counts for 0. *)
Theorem X2_concatenation (a b t : str) :
  a = [] \/ (exists a', a = a' ++ [NL]) ->
  dict_get (report (a ++ b)) t 0
  = dict_get (report a) t 0 + dict_get (report b) t 0.
Proof.
  intros Ha. rewrite !report_get, lines_of_app, count_occ_app; [reflexivity|].
  destruct Ha as [E|[a' E]]; subst a;
    [reflexivity|apply complete_lines_ends_NL].
Qed.

Lemma X2_concatenation_witness :
  (exists a', unlines ["a"; "b"] = a' ++ [NL]) /\
  dict_get (report (unlines ["a"; "b"] ++ unlines ["a"; "a"])) (py "a") 0
  = 1 + 2.
Proof.
  assert (H : exists a', unlines ["a"; "b"] = a' ++ [NL]).
  { exists (py "a" ++ [NL] ++ py "b"). reflexivity. }
  split; [exact H|].
  exact (@X2_concatenation (unlines ["a"; "b"]) (unlines ["a"; "a"])
           (py "a") (or_intror H)).
Defined.

(** X3. Reordering the lines of the input changes no entry of the report,
    only the order of the entries. *)
Theorem X3_reordering (a b : str) :
  Permutation (input_texts a) (input_texts b) ->
  Permutation (report a) (report b).
Proof.
  intros Hp.
  assert (Hn : forall text, NoDup (report text)).
  { intros text. apply (NoDup_map_inv fst). apply report_keys_NoDup. }
  apply NoDup_Permutation; [apply Hn|apply Hn|].
  intros [t n]. rewrite !report_entry_iff.
  rewrite (Permutation_count_occ str_eq_dec) in Hp. rewrite (Hp t).
  split; intros [Hb [Hi En]]; repeat split; try assumption.
  - eapply Permutation_in; [|exact Hi].
    apply (Permutation_count_occ str_eq_dec). exact Hp.
  - eapply Permutation_in; [|exact Hi].
    apply Permutation_sym, (Permutation_count_occ str_eq_dec). exact Hp.
Qed.

Lemma X3_reordering_witness :
  Permutation (input_texts (unlines ["a"; "b"; "b"]))
              (input_texts (unlines ["b"; "a"; "b"])) /\
  Permutation (report (unlines ["a"; "b"; "b"]))
              (report (unlines ["b"; "a"; "b"])).
Proof.
  assert (H : Permutation (input_texts (unlines ["a"; "b"; "b"]))
                          (input_texts (unlines ["b"; "a"; "b"]))).
  { apply perm_swap. }
  split; [exact H|]. exact (@X3_reordering _ _ H).
Defined.

(** ** The output, line by line *)

Lemma digits_no_separator (s : str) :
  forallb is_digit s = true -> ~ In NL s /\ ~ In TAB s.
Proof.
  intros H. rewrite forallb_forall in H.
  split; intros Hi; apply H in Hi; discriminate Hi.
Qed.

Lemma render_terminated (line : str) (n : nat) :
  ~ In NL line -> terminated (render (line, n)).
Proof.
  intros Hl. exists (fstring n line). split; [reflexivity|].
  unfold fstring. rewrite !in_app_iff. simpl.
  destruct (str_of_nat_spec n) as [Hd _].
  apply digits_no_separator in Hd.
  intros [H|[[H|[]]|H]]; [tauto|discriminate H|tauto].
Qed.

Lemma report_terminated (text : str) :
  Forall terminated (map render (report text)).
Proof.
  apply Forall_map, Forall_forall. intros [line n] H.
  apply render_terminated. apply report_In in H.
  eapply lines_of_no_NL. apply H.
Qed.

Lemma split_at_first (x : char) (a a' b b' : str) :
  ~ In x a -> ~ In x a' ->
  a ++ x :: b = a' ++ x :: b' -> a = a' /\ b = b'.
Proof.
  revert a'. induction a as [|c a IH]; intros [|c' a'] Ha Ha' E;
    simpl in *; inversion E; subst.
  - tauto.
  - tauto.
  - tauto.
  - destruct (IH a') as [E1 E2]; [tauto|tauto|assumption|].
    subst. tauto.
Qed.

Lemma str_of_nat_inj (n m : nat) : str_of_nat n = str_of_nat m -> n = m.
Proof.
  intros E. apply (f_equal digits_value) in E.
  rewrite !(proj2 (str_of_nat_spec _)) in E. exact E.
Qed.

Lemma fstring_inj (n m : nat) (l l' : str) :
  fstring n l = fstring m l' -> n = m /\ l = l'.
Proof.
  unfold fstring. simpl. intros E.
  apply split_at_first in E.
  - destruct E as [E1 E2]. apply str_of_nat_inj in E1. tauto.
  - apply digits_no_separator, str_of_nat_spec.
  - apply digits_no_separator, str_of_nat_spec.
Qed.

Lemma report_nil_iff (text : str) :
  report text = [] <-> lines_of text = [].
Proof.
  split; intros E.
  - destruct (lines_of text) as [|t l] eqn:El; [reflexivity|].
    assert (H : In t (map fst (report text))).
    { apply report_texts. rewrite El. left. reflexivity. }
    rewrite E in H. destruct H.
  - unfold report. rewrite E. reflexivity.
Qed.

Lemma filter_nil_iff (A : Type) (p : A -> bool) (l : list A) :
  filter p l = [] <-> Forall (fun a => p a = false) l.
Proof.
  induction l as [|a l IH]; simpl.
  - split; [constructor|reflexivity].
  - destruct (p a) eqn:E; split; intros H.
    + discriminate.
    + inversion H; congruence.
    + constructor; [exact E|apply IH, H].
    + inversion H; subst. apply IH. assumption.
Qed.

(** X4. The output read back line by line is the rendered entries of the
    report, one line per entry; so the output has as many lines as the
    input has distinct non-blank texts. *)
Theorem X4_output_lines (evs : list read_event) :
  readable evs = true ->
  readlines (snd (run evs)) = map render (report (stream_text evs)) /\
  length (readlines (snd (run evs)))
  = length (nodup str_eq_dec (filter nonblank (input_texts (stream_text evs)))).
Proof.
  intros Hr. rewrite (run_readable _ Hr). simpl.
  assert (E : readlines (concat (map render (report (stream_text evs))))
              = map render (report (stream_text evs))).
  { rewrite <- (app_nil_r (concat _)).
    rewrite (@readlines_concat _ [] (report_terminated _) (fun H => H)).
    apply app_nil_r. }
  split; [exact E|]. rewrite E, length_map.
  rewrite <- (length_map fst). apply Permutation_length.
  apply NoDup_Permutation.
  - apply report_keys_NoDup.
  - apply NoDup_nodup.
  - intros t. rewrite nodup_In, report_texts, lines_of_input_texts.
    reflexivity.
Qed.

Lemma X4_output_lines_witness :
  readable sample_chunks = true /\
  length (readlines (snd (run sample_chunks))) = 2.
Proof.
  split; [reflexivity|].
  rewrite (proj2 (@X4_output_lines sample_chunks eq_refl)). reflexivity.
Defined.

(** X5. An output line determines its entry: two entries that are rendered
    alike have the same count and the same text, whatever the text holds,
    tabs included. *)
Theorem X5_render_injective (e1 e2 : str * nat) :
  render e1 = render e2 -> e1 = e2.
Proof.
  destruct e1 as [l1 n1], e2 as [l2 n2]. unfold render. intros E.
  apply app_inv_tail in E. apply fstring_inj in E.
  destruct E; subst. reflexivity.
Qed.

Lemma X5_render_injective_witness :
  render (py "x", 12) = render (py "x", 3 * 4) /\ (py "x", 12) = (py "x", 3 * 4).
Proof.
  assert (H : render (py "x", 12) = render (py "x", 3 * 4)) by reflexivity.
  split; [exact H|]. exact (@X5_render_injective _ _ H).
Defined.

(** X6. The program succeeds in silence exactly when no read fails and
    every line of the input is blank, the empty input included. *)
Theorem X6_silent_success (evs : list read_event) :
  run evs = (0%Z, []) <->
  readable evs = true /\
  Forall (fun t => blank t = true) (input_texts (stream_text evs)).
Proof.
  destruct (readable evs) eqn:Hr.
  - rewrite (run_readable _ Hr).
    assert (Hb : Forall (fun t => blank t = true)
                        (input_texts (stream_text evs))
                 <-> report (stream_text evs) = []).
    { rewrite report_nil_iff, lines_of_input_texts, filter_nil_iff.
      split; apply Forall_impl; intros t; unfold nonblank;
        destruct (blank t); simpl; congruence. }
    rewrite Hb. split.
    + intros E. split; [reflexivity|].
      destruct (report (stream_text evs)) as [|[l n] r]; [reflexivity|].
      inversion E as [E']. unfold fstring in E'.
      destruct (str_of_nat n); discriminate E'.
    + intros [_ E]. rewrite E. reflexivity.
  - rewrite (run_fault _ Hr). split; [discriminate|].
    intros [H _]. discriminate H.
Qed.

(** ** The program run on its own output *)

Lemma blank_app (a b : str) : blank (a ++ b) = blank a && blank b.
Proof. unfold blank. apply forallb_app. Qed.

Lemma filter_all (A : Type) (p : A -> bool) (l : list A) :
  Forall (fun a => p a = true) l -> filter p l = l.
Proof.
  induction 1 as [|a l Ha Hl IH]; simpl; [reflexivity|].
  rewrite Ha, IH. reflexivity.
Qed.

Lemma dict_set_absent (d : dict) (k : str) (v : nat) :
  ~ In k (keys d) -> dict_set d k v = d ++ [(k, v)].
Proof.
  induction d as [|[k' v'] d IH]; simpl; intros H; [reflexivity|].
  destruct (str_eq_dec k' k) as [E|E]; [tauto|].
  rewrite IH by tauto. reflexivity.
Qed.

Lemma NoDup_map_inj (A B : Type) (f : A -> B) (l : list A) :
  (forall x y, f x = f y -> x = y) -> NoDup l -> NoDup (map f l).
Proof.
  intros Hf. induction 1 as [|a l Ha Hl IH]; simpl; constructor; [|exact IH].
  rewrite in_map_iff. intros [y [E Hy]]. apply Hf in E. subst y. exact (Ha Hy).
Qed.

(** Counting elements that are all different gives each the count 1. *)
Lemma Counter_NoDup (l : list str) :
  NoDup l -> Counter l = map (fun k => (k, 1)) l.
Proof.
  unfold Counter. induction l as [|x l IH] using rev_ind; intros Hn.
  - reflexivity.
  - assert (Hl : NoDup l) by (eapply NoDup_app_remove_r; exact Hn).
    assert (Hx : ~ In x l).
    { apply NoDup_remove_2 in Hn. rewrite app_nil_r in Hn. exact Hn. }
    rewrite count_elements_snoc, (IH Hl), map_app. unfold incr.
    assert (Hk : ~ In x (keys (map (fun k => (k, 1)) l))).
    { unfold keys. rewrite map_map. simpl. rewrite map_id. exact Hx. }
    rewrite dict_get_absent by exact Hk.
    rewrite dict_set_absent by exact Hk. reflexivity.
Qed.

Lemma stable_sort_equal_keys (A : Type) (key : A -> nat) (c : nat)
      (l : list A) :
  Forall (fun a => key a = c) l -> stable_sort key l = l.
Proof.
  induction 1 as [|x l Hx Hl IH]; simpl; [reflexivity|].
  rewrite IH. destruct Hl as [|y l Hy Hl]; simpl; [reflexivity|].
  rewrite Hx, Hy, Nat.leb_refl. reflexivity.
Qed.

(** Entries that all have the same count keep their order. *)
Lemma most_common_equal_counts (d : dict) (c : nat) :
  Forall (fun e => snd e = c) d -> most_common d = d.
Proof.
  intros H. unfold most_common, sorted.
  rewrite (@stable_sort_equal_keys _ _ c) by (apply Forall_rev; exact H).
  apply rev_involutive.
Qed.

Lemma lines_of_rendered (text : str) :
  lines_of (concat (map render (report text)))
  = map (fun e => fstring (snd e) (fst e)) (report text).
Proof.
  unfold lines_of.
  rewrite <- (app_nil_r (concat _)).
  rewrite (@readlines_concat _ [] (report_terminated _) (fun H => H)).
  rewrite app_nil_r.
  assert (Ht : forall line n,
             In (line, n) (report text) ->
             text_of (render (line, n)) = fstring n line /\
             keeps (render (line, n)) = true).
  { intros line n H.
    assert (E : text_of (render (line, n)) = fstring n line).
    { assert (Hl : ~ In NL line).
      { apply report_In in H. eapply lines_of_no_NL. apply H. }
      destruct (@render_terminated line n Hl) as [t [Et Hn]].
      unfold render in *. apply app_inj_tail in Et. destruct Et as [Et _].
      subst t. apply text_of_terminated. exact Hn. }
    split; [exact E|].
    rewrite keeps_text_of, E. unfold fstring. rewrite !blank_app.
    apply report_entry_iff in H. destruct H as [Hb _].
    unfold nonblank in Hb. destruct (blank line); [discriminate|].
    rewrite !andb_false_r. reflexivity. }
  rewrite filter_all.
  - rewrite map_map. apply map_ext_in. intros [line n] H. apply Ht, H.
  - apply Forall_map, Forall_forall. intros [line n] H. apply Ht, H.
Qed.

(** X7. Run on its own output, the program reports every output line once
    and in the same order. *)
Theorem X7_own_output (text : str) :
  report (snd (run [Data text]))
  = map (fun e => (fstring (snd e) (fst e), 1)) (report text).
Proof.
  rewrite (@run_readable [Data text] eq_refl). simpl. rewrite app_nil_r.
  unfold report at 1. rewrite lines_of_rendered.
  rewrite Counter_NoDup.
  - rewrite most_common_equal_counts with (c := 1).
    + apply map_map.
    + apply Forall_map, Forall_map, Forall_forall. reflexivity.
  - apply NoDup_map_inj.
    + intros [l n] [l' n'] E. simpl in E. apply fstring_inj in E.
      destruct E; subst. reflexivity.
    + apply (NoDup_map_inv fst). apply report_keys_NoDup.
Qed.

(** ** The comprehension *)

Lemma rstrip_by_last (drop : char -> bool) (s : str) :
  forall u x, rstrip_by drop s = u ++ [x] -> drop x = false.
Proof.
  induction s as [|c t IH]; intros u x E; simpl in E.
  - destruct u; discriminate.
  - destruct (rstrip_by drop t) as [|c' r] eqn:Er.
    + destruct (drop c) eqn:Ec; [destruct u; discriminate|].
      destruct u as [|c1 u]; [inversion E; subst; exact Ec|].
      destruct u; discriminate.
    + destruct u as [|c1 u]; [discriminate|].
      inversion E; subst. eapply IH. eassumption.
Qed.

(** X8. [line.rstrip("\n")] removes every trailing ["\n"] of a string and
    nothing else: the string is its text followed by newlines only, and the
    text does not end with ["\n"]. *)
Theorem X8_rstrip_newlines (s : str) :
  (exists k, s = text_of s ++ repeat NL k) /\
  (forall u, text_of s <> u ++ [NL]).
Proof.
  split.
  - unfold text_of, rstrip. induction s as [|c t [k IH]].
    + exists 0. reflexivity.
    + cbn [rstrip_by]. destruct (rstrip_by (mem [NL]) t) as [|c' r].
      * destruct (mem [NL] c) eqn:Ec.
        -- exists (S k). apply mem_In in Ec. destruct Ec as [Ec|[]].
           subst c. simpl. f_equal. exact IH.
        -- exists k. simpl. f_equal. exact IH.
      * exists k. simpl. f_equal. exact IH.
  - intros u E. apply rstrip_by_last in E. discriminate E.
Qed.

(** X9. The comprehension keeps a line exactly when it holds a character
    that is not whitespace. *)
Theorem X9_kept_lines (line : str) :
  keeps line = true <-> exists c, In c line /\ isspace c = false.
Proof.
  rewrite keeps_blank. unfold blank. split.
  - intros H. induction line as [|c t IH]; [discriminate|].
    simpl in H. destruct (isspace c) eqn:Ec.
    + destruct (IH H) as [x [Hx Ex]]. exists x. split; [right|]; assumption.
    + exists c. split; [left; reflexivity|exact Ec].
  - intros [c [Hc Ec]].
    destruct (forallb isspace line) eqn:E; [|reflexivity].
    rewrite forallb_forall in E. rewrite (E c Hc) in Ec. discriminate.
Qed.

(** ** The counter and the head of the report *)

(** X10. [Counter(lines)]: looking a string up gives the number of its
    occurrences in [lines], 0 when it does not occur; the keys are the
    elements of [lines], each once, in the order of first occurrence. *)
Theorem X10_counter (lines : list str) (k : str) :
  dict_get (Counter lines) k 0 = count_occ str_eq_dec lines k /\
  (In k (keys (Counter lines)) <-> In k lines) /\
  NoDup (keys (Counter lines)) /\
  StronglySorted (fun a b => first_index a lines < first_index b lines)
                 (keys (Counter lines)).
Proof.
  split; [apply dict_get_Counter|].
  split; [apply keys_Counter|].
  split; [apply keys_Counter|apply keys_Counter_order].
Qed.

(** X11. The first entry of the report is a most frequent text: no
    non-blank text occurs in more input lines, and none that occurs in as
    many lines occurs first earlier in the input. *)
Theorem X11_first_entry (text t : str) (n : nat) (rest : list (str * nat))
        (t' : str) :
  report text = (t, n) :: rest ->
  nonblank t' = true ->
  count_occ str_eq_dec (input_texts text) t' <= n /\
  (count_occ str_eq_dec (input_texts text) t' = n ->
   first_index t (input_texts text) <= first_index t' (input_texts text)).
Proof.
  intros Er Hb.
  assert (Hh : In (t, n) (report text)) by (rewrite Er; left; reflexivity).
  pose proof Hh as Hh'. apply report_entry_iff in Hh'.
  destruct Hh' as [_ [Ht En]].
  assert (Hn : 1 <= n).
  { subst n. apply (count_occ_In str_eq_dec) in Ht. lia. }
  destruct (str_eq_dec t' t) as [E|E]; [subst t'; lia|].
  destruct (in_dec str_eq_dec t' (input_texts text)) as [Hi|Hi].
  - assert (Hr : In (t', count_occ str_eq_dec (input_texts text) t')
                    (report text)).
    { apply report_entry_iff. tauto. }
    pose proof (report_sorted text) as Hs. rewrite Er in Hs, Hr.
    inversion Hs as [|? ? _ Hf]; subst.
    destruct Hr as [Hr|Hr]; [inversion Hr; congruence|].
    rewrite Forall_forall in Hf. specialize (Hf _ Hr).
    destruct Hf as [Hf|[Ec Hf]]; simpl in *; [lia|].
    split; [lia|]. intros _. apply Nat.lt_le_incl.
    apply first_index_input; [| |exact Hf].
    + apply report_In in Hh. tauto.
    + rewrite lines_of_input_texts. apply filter_In. tauto.
  - apply (count_occ_not_In str_eq_dec) in Hi. rewrite Hi. lia.
Qed.

Lemma X11_first_entry_witness :
  report sample_ties = [(py "a", 2); (py "c", 2); (py "b", 1)] /\
  nonblank (py "c") = true /\
  count_occ str_eq_dec (input_texts sample_ties) (py "c") <= 2 /\
  (count_occ str_eq_dec (input_texts sample_ties) (py "c") = 2 ->
   first_index (py "a") (input_texts sample_ties)
   <= first_index (py "c") (input_texts sample_ties)).
Proof.
  split; [reflexivity|]. split; [reflexivity|].
  exact (@X11_first_entry sample_ties (py "a") 2 [(py "c", 2); (py "b", 1)]
           (py "c") eq_refl eq_refl).
Defined.
